(** * DigitalOcean cluster-autoscaler provider: the manager and its cache

    A shallow embedding of
    [cluster-autoscaler/cloudprovider/digitalocean/digitalocean_manager.go]
    ([newManager] and [Manager.Refresh]) together with the properties the
    specification states about the node-group cache.

    Conventions of the embedding:
    - a Go call returning [(v, err)] is a pair [(v, option error)]; [None]
      is the [nil] error.  Both components are kept, since the callers in
      the source test [err] only;
    - Go's [int] fields are carried as [Z]; the manager performs no
      arithmetic on them, so no wrap-around can happen;
    - a slice is a [list] (a [nil] slice and an empty slice are both [[]]);
      the elements of [[]*godo.KubernetesNodePool] are the pools pointed to,
      the godo client never yields a [nil] element;
    - the [context.Context], the [*godo.ListOptions] (always [nil]) and the
      [*godo.Response] (always discarded) of the client calls are left out;
    - the remote API is a state of type [World] threaded through every
      outbound call, and every outbound call is logged. *)

From stdpp Require Import base option list strings gmap fin_maps.
From Stdlib Require Import ZArith.

Local Open Scope string_scope.
Local Open Scope Z_scope.
Local Open Scope list_scope.

(** ** Errors *)

(** Go [error] values.  The three ways the provider builds one are kept as
    syntax; an error coming out of a collaborator is any value of the type. *)
Inductive error : Type :=
  | errorsNew (text : string)
  | fmtErrorfQ (format : string) (arg : string)
  | fmtErrorfS (format : string) (arg : error).

(** ** godo data *)

Record KubernetesNodeStatus := {
  State : string
}.

Record KubernetesNode := {
  nodeID : string;
  Status : KubernetesNodeStatus;
  DropletID : string
}.

Record KubernetesNodePool := {
  ID : string;
  Name : string;
  Size : string;
  AutoScale : bool;
  MinNodes : Z;
  MaxNodes : Z;
  Nodes : list KubernetesNode
}.

(** [godo.Size], the fields the capacity table is built from (the name
    [Size] is taken by the node pool's field). *)
Record godoSize := {
  Slug : string;
  Memory : Z;
  Vcpus : Z
}.

Record capacity := {
  cpus : Z;
  memory : Z
}.

(** Outbound calls, as logged. *)
Inductive Call : Type :=
  | CallSizesList
  | CallListNodePools (clusterID : string).

Definition isListNodePools (c : Call) : bool :=
  match c with
  | CallListNodePools _ => true
  | CallSizesList => false
  end.

(** ** Configuration *)

Record Config := {
  ClusterID : string;
  Token : string;
  URL : string
}.

(** [io.Reader], seen through what [ioutil.ReadAll] returns on it. *)
Record Reader := {
  ReadAll : string * option error
}.

Record oauthClient := {
  AccessToken : string
}.

Inductive ClientOpt : Type :=
  | SetBaseURL (url : string)
  | SetUserAgent (ua : string).

Definition version : string := "dev".

Section Provider.

(** State of the remote API, as the clients observe and change it. *)
Variable World : Type.

(** The interface [nodeGroupClient]; [Refresh] uses [ListNodePools] only. *)
Record nodeGroupClient := {
  ListNodePools : string → World → (list KubernetesNodePool * option error) * World
}.

(** The interface [sizeLister]. *)
Record sizeLister := {
  List : World → (list godoSize * option error) * World
}.

(** [godo.Client], the two services the manager keeps. *)
Record godoClient := {
  Kubernetes : nodeGroupClient;
  Sizes : sizeLister
}.

(** [NodeGroup], with the fields [Refresh] fills in.  Its [clusterID],
    [client], [cpus] and [memory] carry the prefix [ng]: the plain names are
    the projections of [Manager] and of [capacity]. *)
Record NodeGroup := {
  id : string;
  ngClusterID : string;
  ngClient : nodeGroupClient;
  nodePool : KubernetesNodePool;
  minSize : Z;
  maxSize : Z;
  ngCpus : Z;
  ngMemory : Z
}.

(** [Manager]; its field [sizeLister] is [mSizeLister] here, the plain name
    being the interface's. *)
Record Manager := {
  client : nodeGroupClient;
  clusterID : string;
  nodeGroups : list NodeGroup;
  mSizeLister : sizeLister;
  capacityByDropletSlug : gmap string capacity
}.

Definition setNodeGroups (m : Manager) (group : list NodeGroup) : Manager :=
  {| client := client m;
     clusterID := clusterID m;
     nodeGroups := group;
     mSizeLister := mSizeLister m;
     capacityByDropletSlug := capacityByDropletSlug m |}.

Definition setCapacityByDropletSlug (m : Manager) (t : gmap string capacity) : Manager :=
  {| client := client m;
     clusterID := clusterID m;
     nodeGroups := nodeGroups m;
     mSizeLister := mSizeLister m;
     capacityByDropletSlug := t |}.

(** *** Outbound calls: a state monad over [World] that logs each call *)

Definition Api (A : Type) : Type := World → A * World * list Call.

Definition apiRet {A} (a : A) : Api A := λ w, (a, w, []).

Definition apiBind {A B} (c : Api A) (k : A → Api B) : Api B :=
  λ w, let '(a, w1, t1) := c w in
       let '(b, w2, t2) := k a w1 in
       (b, w2, t1 ++ t2).

Definition callListNodePools (c : nodeGroupClient) (cid : string)
  : Api (list KubernetesNodePool * option error) :=
  λ w, let '(r, w') := ListNodePools c cid w in (r, w', [CallListNodePools cid]).

Definition callSizesList (s : sizeLister) : Api (list godoSize * option error) :=
  λ w, let '(r, w') := List s w in (r, w', [CallSizesList]).

Definition result {A} (r : A * World * list Call) : A := r.1.1.
Definition world {A} (r : A * World * list Call) : World := r.1.2.
Definition calls {A} (r : A * World * list Call) : list Call := r.2.

End Provider.

Arguments ListNodePools {World} _ _ _.
Arguments List {World} _ _.
Arguments Kubernetes {World} _.
Arguments Sizes {World} _.
Arguments id {World} _.
Arguments ngClusterID {World} _.
Arguments ngClient {World} _.
Arguments nodePool {World} _.
Arguments minSize {World} _.
Arguments maxSize {World} _.
Arguments ngCpus {World} _.
Arguments ngMemory {World} _.
Arguments client {World} _.
Arguments clusterID {World} _.
Arguments nodeGroups {World} _.
Arguments mSizeLister {World} _.
Arguments capacityByDropletSlug {World} _.
Arguments setNodeGroups {World} _ _.
Arguments setCapacityByDropletSlug {World} _ _.
Arguments apiRet {World A} _ _.
Arguments apiBind {World A B} _ _ _.
Arguments callListNodePools {World} _ _ _.
Arguments callSizesList {World} _ _.
Arguments result {World A} _.
Arguments world {World A} _.
Arguments calls {World A} _.

#[global] Instance Api_ret {World} : MRet (Api World) := λ A, apiRet.
#[global] Instance Api_bind {World} : MBind (Api World) := λ A B k c, apiBind c k.

(** ** The manager *)

Section ManagerOps.

Context {World : Type}.

(** Modelled from the spec: [ensureCapacityMap] is called by [Refresh] but
    its body is not part of the sources at hand.  The specification says
    the capacity lookup table maps a machine-size identifier to its CPU and
    memory capacity, is populated once, lazily, from the listing of the
    available machine sizes, and that errors are surfaced directly.  So:
    a table that already has entries is left alone; otherwise the sizes are
    listed, a failure of the listing is returned as it is, and each listed
    size is stored under its slug. *)
Definition ensureCapacityMap (m : Manager World) : Api World (option error * Manager World) :=
  if decide (capacityByDropletSlug m = ∅) then
    '(sizes, err) ← callSizesList (mSizeLister m);
    match err with
    | Some e => mret (Some e, m)
    | None =>
        mret (None,
          setCapacityByDropletSlug m
            (foldl (λ t s, <[Slug s := {| cpus := Vcpus s; memory := Memory s |}]> t)
                   (capacityByDropletSlug m) sizes))
    end
  else mret (None, m).

(** The [for _, nodePool := range nodePools] loop of [Refresh]: [group] is
    the slice built so far; a missing capacity entry leaves the function
    with an error. *)
Fixpoint refreshLoop (m : Manager World) (nodePools : list KubernetesNodePool)
    (group : list (NodeGroup World)) : error + list (NodeGroup World) :=
  match nodePools with
  | [] => inr group
  | nodePool :: rest =>
      if negb (AutoScale nodePool) then refreshLoop m rest group
      else
        match capacityByDropletSlug m !! Size nodePool with
        | None =>
            inl (fmtErrorfQ "no capacity data found for droplet slug %q" (Size nodePool))
        | Some cap =>
            refreshLoop m rest
              (group ++ [ {| id := ID nodePool;
                             ngClusterID := clusterID m;
                             ngClient := client m;
                             nodePool := nodePool;
                             minSize := MinNodes nodePool;
                             maxSize := MaxNodes nodePool;
                             ngCpus := cpus cap;
                             ngMemory := memory cap |} ])
        end
  end.

(** [Manager.Refresh].  The receiver is passed in and handed back with the
    returned error. *)
Definition Refresh (m : Manager World) : Api World (option error * Manager World) :=
  '(err, m) ← ensureCapacityMap m;
  match err with
  | Some e => mret (Some e, m)
  | None =>
      '(nodePools, err) ← callListNodePools (client m) (clusterID m);
      match err with
      | Some e => mret (Some e, m)
      | None =>
          match refreshLoop m nodePools [] with
          | inl e => mret (Some e, m)
          | inr group => mret (None, setNodeGroups m group)
          end
      end
  end.

(** *** The constructor *)

Section Constructor.

(** The two library functions [newManager] relies on. *)
Variable jsonUnmarshal : string → Config → Config * option error.
Variable godoNew : oauthClient → list ClientOpt → godoClient World * option error.

Definition newManager (configReader : option Reader)
  : option (Manager World) * option error :=
  let cfg := {| ClusterID := EmptyString; Token := EmptyString; URL := EmptyString |} in
  let parsed : Config * option error :=
    match configReader with
    | None => (cfg, None)
    | Some rd =>
        let '(body, err) := ReadAll rd in
        match err with
        | Some e => (cfg, Some e)
        | None => jsonUnmarshal body cfg
        end
    end in
  match parsed with
  | (_, Some e) => (None, Some e)
  | (cfg, None) =>
      if decide (Token cfg = EmptyString) then
        (None, Some (errorsNew "access token is not provided"))
      else if decide (ClusterID cfg = EmptyString) then
        (None, Some (errorsNew "cluster ID is not provided"))
      else
        let oauth := {| AccessToken := Token cfg |} in
        let opts : list ClientOpt := [] in
        let opts := if decide (URL cfg = EmptyString) then opts
                    else opts ++ [SetBaseURL (URL cfg)] in
        let opts := opts ++ [SetUserAgent ("cluster-autoscaler-digitalocean/" +:+ version)] in
        let '(doClient, err) := godoNew oauth opts in
        match err with
        | Some e =>
            (None, Some (fmtErrorfS "couldn't initialize DigitalOcean client: %s" e))
        | None =>
            (Some {| client := Kubernetes doClient;
                     clusterID := ClusterID cfg;
                     nodeGroups := [];
                     mSizeLister := Sizes doClient;
                     capacityByDropletSlug := ∅ |}, None)
        end
  end.

End Constructor.

End ManagerOps.

Arguments newManager {World} _ _ _.

(** ** A scripted remote API

    The counterpart of the test suite's [doClientMock]: the state of the
    remote side is the queue of answers still to be given to
    [ListNodePools]; each call consumes one, and a call on an exhausted queue
    fails. *)

Definition Script : Type := list (list KubernetesNodePool * option error).

Definition scriptedClient : nodeGroupClient Script :=
  {| ListNodePools := λ _ w,
       match w with
       | [] => (([], Some (errorsNew "mock: unexpected call to ListNodePools")), [])
       | answer :: rest => (answer, rest)
       end |}.

Definition fixedSizes (sizes : list godoSize) (err : option error) : sizeLister Script :=
  {| List := λ w, ((sizes, err), w) |}.

Definition mkNode (i state droplet : string) : KubernetesNode :=
  {| nodeID := i; Status := {| State := state |}; DropletID := droplet |}.

Definition mkPool (i size : string) (auto : bool) (lo hi : Z)
    (nodes : list KubernetesNode) : KubernetesNodePool :=
  {| ID := i; Name := "pool-" +:+ i; Size := size; AutoScale := auto;
     MinNodes := lo; MaxNodes := hi; Nodes := nodes |}.

(** Four pools shaped like the ones of the provider test: three
    auto-scalable ones and a fixed one. *)
Definition examplePools : list KubernetesNodePool :=
  [ mkPool "1" "s-1vcpu-2gb" true 1 3
      [mkNode "1" "running" "droplet-1"; mkNode "2" "running" "droplet-2"];
    mkPool "2" "s-2vcpu-4gb" true 2 5
      [mkNode "3" "deleting" "droplet-3"; mkNode "4" "running" "droplet-4"];
    mkPool "3" "s-1vcpu-2gb" true 1 10
      [mkNode "5" "provisioning" "droplet-5"; mkNode "6" "running" "droplet-6"];
    mkPool "4" "s-2vcpu-4gb" false 0 0
      [mkNode "7" "draining" "droplet-7"; mkNode "8" "running" "droplet-8"] ].

Definition fixedPools : list KubernetesNodePool :=
  [ mkPool "4" "s-2vcpu-4gb" false 0 0 [];
    mkPool "9" "m-unknown" false 0 0 [] ].

Definition unknownPool : KubernetesNodePool :=
  mkPool "7" "m-unknown" true 1 2 [].

Definition unknownSizePools : list KubernetesNodePool :=
  [ mkPool "1" "s-1vcpu-2gb" true 1 3 []; unknownPool ].

Definition exampleSizes : list godoSize :=
  [ {| Slug := "s-1vcpu-2gb"; Memory := 2048; Vcpus := 1 |};
    {| Slug := "s-2vcpu-4gb"; Memory := 4096; Vcpus := 2 |} ].

Definition exampleManager (sizes : sizeLister Script) : Manager Script :=
  {| client := scriptedClient;
     clusterID := "123456";
     nodeGroups := [];
     mSizeLister := sizes;
     capacityByDropletSlug := ∅ |}.

Definition staleGroup : NodeGroup Script :=
  {| id := "old"; ngClusterID := "123456"; ngClient := scriptedClient;
     nodePool := mkPool "old" "s-1vcpu-2gb" true 1 1 [];
     minSize := 1; maxSize := 1; ngCpus := 1; ngMemory := 2048 |}.

Definition timeout : error := errorsNew "context deadline exceeded".

Definition laterPools : list KubernetesNodePool :=
  [ mkPool "4" "s-2vcpu-4gb" false 0 0 [];
    mkPool "2" "s-2vcpu-4gb" true 2 6 [] ].

Definition twoListings : Script :=
  [(examplePools, None); (laterPools, None)].

(** Managers used as concrete instances below: one over an empty cache, one
    whose cache holds an entry of an earlier refresh, and one whose size
    listing fails. *)
Definition freshManager : Manager Script :=
  exampleManager (fixedSizes exampleSizes None).

Definition warmManager : Manager Script :=
  setNodeGroups freshManager [staleGroup].

Definition sizelessManager : Manager Script :=
  setNodeGroups (exampleManager (fixedSizes [] (Some timeout))) [staleGroup].

(** Stand-ins for the two library functions, for concrete instances: a
    decoder that knows two documents and a client factory that always
    succeeds. *)
Definition knownDocuments (body : string) (cfg : Config) : Config * option error :=
  if decide (body = "full") then
    ({| ClusterID := "123456"; Token := "123-123-123";
        URL := "https://api.digitalocean.com/v2" |}, None)
  else if decide (body = "tokenless") then
    ({| ClusterID := "123456"; Token := Token cfg; URL := URL cfg |}, None)
  else (cfg, Some (errorsNew "unexpected end of JSON input")).

Definition alwaysClient (_ : oauthClient) (_ : list ClientOpt)
    : godoClient Script * option error :=
  ({| Kubernetes := scriptedClient; Sizes := fixedSizes exampleSizes None |}, None).

(** ** What the specification calls the outcome of a refresh *)

(** The pools a refresh keeps, in the specification's words: those marked
    auto-scalable. *)
Definition retained (pools : list KubernetesNodePool) : list KubernetesNodePool :=
  filter (λ p, AutoScale p = true) pools.

(** [builtFrom m p g]: the node group [g] is the entry of pool [p] under
    the manager [m]. *)
Definition builtFrom {World} (m : Manager World) (p : KubernetesNodePool)
    (g : NodeGroup World) : Prop :=
  id g = ID p ∧
  ngClusterID g = clusterID m ∧
  ngClient g = client m ∧
  nodePool g = p ∧
  minSize g = MinNodes p ∧
  maxSize g = MaxNodes p ∧
  ∃ cap, capacityByDropletSlug m !! Size p = Some cap
         ∧ ngCpus g = cpus cap ∧ ngMemory g = memory cap.

(** What [ListNodePools] answers when [Refresh m] runs in the world [w]: the
    call is made with the manager's client and cluster identifier, after
    [ensureCapacityMap]. *)
Definition listedBy {World} (m : Manager World) (w : World)
    : (list KubernetesNodePool * option error) * World :=
  let r := ensureCapacityMap m w in
  let m1 := (result r).2 in
  ListNodePools (client m1) (clusterID m1) (world r).

(** The manager a call of [Refresh] leaves behind, and the error the call
    returns. *)
Definition after {World} (m : Manager World) (w : World) : Manager World :=
  (result (Refresh m w)).2.

Definition returned {World} (m : Manager World) (w : World) : option error :=
  (result (Refresh m w)).1.

(** ** Reading the constructor

    Names for the three stages of [newManager], used to state what it does
    with its reader and with [godo.New]. *)

(** [&Config{}]. *)
Definition zeroConfig : Config :=
  {| ClusterID := EmptyString; Token := EmptyString; URL := EmptyString |}.

(** The configuration [newManager] holds after its reading stage and the
    error that stage ends with, if any: a [nil] reader is not read at all. *)
Definition parsedConfig (jsonUnmarshal : string → Config → Config * option error)
    (configReader : option Reader) : Config * option error :=
  match configReader with
  | None => (zeroConfig, None)
  | Some rd =>
      match ReadAll rd with
      | (_, Some e) => (zeroConfig, Some e)
      | (body, None) => jsonUnmarshal body zeroConfig
      end
  end.

(** [configRead jsonUnmarshal configReader cfg]: the reading stage succeeds
    and leaves [cfg]. *)
Definition configRead (jsonUnmarshal : string → Config → Config * option error)
    (configReader : option Reader) (cfg : Config) : Prop :=
  match configReader with
  | None => cfg = zeroConfig
  | Some rd =>
      ∃ body, ReadAll rd = (body, None) ∧ jsonUnmarshal body zeroConfig = (cfg, None)
  end.

(** The options a configuration asks for: the base URL when one is given,
    then the user agent. *)
Definition clientOpts (cfg : Config) : list ClientOpt :=
  (if decide (URL cfg = EmptyString) then [] else [SetBaseURL (URL cfg)])
  ++ [SetUserAgent "cluster-autoscaler-digitalocean/dev"].

(** More stand-ins for concrete instances: readers, a decoder that knows two
    further documents, and a client factory that always fails. *)
Definition brokenReader : Reader := {| ReadAll := ("par", Some timeout) |}.
Definition garbageReader : Reader := {| ReadAll := ("garbage", None) |}.
Definition fullReader : Reader := {| ReadAll := ("full", None) |}.
Definition tokenlessReader : Reader := {| ReadAll := ("tokenless", None) |}.
Definition clusterlessReader : Reader := {| ReadAll := ("clusterless", None) |}.
Definition plainReader : Reader := {| ReadAll := ("plain", None) |}.

Definition moreDocuments (body : string) (cfg : Config) : Config * option error :=
  if decide (body = "clusterless") then
    ({| ClusterID := ClusterID cfg; Token := "123-123-123"; URL := URL cfg |}, None)
  else if decide (body = "plain") then
    ({| ClusterID := "123456"; Token := "123-123-123"; URL := URL cfg |}, None)
  else knownDocuments body cfg.

Definition badURL : error := errorsNew "parse: missing protocol scheme".

Definition refusingClient (_ : oauthClient) (_ : list ClientOpt)
    : godoClient Script * option error :=
  ({| Kubernetes := scriptedClient; Sizes := fixedSizes [] None |}, Some badURL).

#[global] Instance ClientOpt_eq_dec : EqDecision ClientOpt.
Proof. solve_decision. Defined.

(** A client factory that accepts the arguments it should be given and
    refuses every other call. *)
Definition strictClient (oauth : oauthClient) (opts : list ClientOpt)
    : godoClient Script * option error :=
  if decide (AccessToken oauth ≠ EmptyString
             ∧ last opts = Some (SetUserAgent "cluster-autoscaler-digitalocean/dev"))
  then alwaysClient oauth opts
  else refusingClient oauth opts.

(** * Properties *)

Section Lemmas.

Context {World : Type}.
Implicit Types (m : Manager World) (w : World) (pools : list KubernetesNodePool).
Implicit Types (group : list (NodeGroup World)) (p : KubernetesNodePool).

(** ** The loop *)

Lemma retained_cons_true p pools :
  AutoScale p = true → retained (p :: pools) = p :: retained pools.
Proof. intros H. unfold retained. by rewrite filter_cons_True. Qed.

Lemma retained_cons_false p pools :
  AutoScale p = false → retained (p :: pools) = retained pools.
Proof.
  intros H. unfold retained. rewrite filter_cons_False; [done|].
  rewrite H. discriminate.
Qed.

Lemma refreshLoop_ok m pools : ∀ group group',
  refreshLoop m pools group = inr group' →
  ∃ built, group' = group ++ built ∧ Forall2 (builtFrom m) (retained pools) built.
Proof.
  induction pools as [|p pools IH]; intros group group' Hrun; simpl in Hrun.
  - exists []. split; [by simplify_eq; rewrite app_nil_r | constructor].
  - destruct (AutoScale p) eqn:Hauto; simpl in Hrun.
    + destruct (capacityByDropletSlug m !! Size p) as [cap|] eqn:Hcap; [|done].
      apply IH in Hrun as (built & -> & Hbuilt).
      eexists (_ :: built). split; [by rewrite <- app_assoc|].
      rewrite retained_cons_true by done.
      constructor; [|done].
      repeat split; simpl; eauto.
    + rewrite retained_cons_false by done. by apply IH.
Qed.

Lemma refreshLoop_missing m pools : ∀ group p,
  p ∈ pools → AutoScale p = true → capacityByDropletSlug m !! Size p = None →
  ∃ q, q ∈ pools ∧ AutoScale q = true ∧ capacityByDropletSlug m !! Size q = None
       ∧ refreshLoop m pools group
         = inl (fmtErrorfQ "no capacity data found for droplet slug %q" (Size q)).
Proof.
  induction pools as [|p0 pools IH]; intros group p Hin Hauto Hcap.
  - by apply elem_of_nil in Hin.
  - simpl. destruct (AutoScale p0) eqn:Hauto0; simpl.
    + destruct (capacityByDropletSlug m !! Size p0) as [cap|] eqn:Hcap0.
      * apply elem_of_cons in Hin as [->|Hin]; [congruence|].
        destruct (IH (group ++ [ {| id := ID p0; ngClusterID := clusterID m;
                      ngClient := client m; nodePool := p0;
                      minSize := MinNodes p0; maxSize := MaxNodes p0;
                      ngCpus := cpus cap; ngMemory := memory cap |} ]) p Hin Hauto Hcap)
          as (q & Hq & ? & ? & ->).
        exists q. repeat split; try done. apply elem_of_cons; by right.
      * exists p0. repeat split; try done. apply elem_of_cons; by left.
    + apply elem_of_cons in Hin as [->|Hin]; [congruence|].
      destruct (IH group p Hin Hauto Hcap) as (q & Hq & ? & ? & ->).
      exists q. repeat split; try done. apply elem_of_cons; by right.
Qed.

Lemma refreshLoop_covered m pools : ∀ group,
  (∀ p, p ∈ pools → AutoScale p = true → is_Some (capacityByDropletSlug m !! Size p)) →
  ∃ group', refreshLoop m pools group = inr group'.
Proof.
  induction pools as [|p0 pools IH]; intros group Hall; simpl; [by eauto|].
  destruct (AutoScale p0) eqn:Hauto0; simpl.
  - destruct (Hall p0) as [cap ->]; [apply elem_of_cons; by left | done |].
    apply IH. intros p Hp. apply Hall. apply elem_of_cons; by right.
  - apply IH. intros p Hp. apply Hall. apply elem_of_cons; by right.
Qed.

Lemma retained_nil_iff pools :
  retained pools = [] ↔ ∀ p, p ∈ pools → AutoScale p = false.
Proof.
  induction pools as [|p0 pools IH].
  - split; [intros _ p Hp; by apply elem_of_nil in Hp | done].
  - destruct (AutoScale p0) eqn:Hauto0.
    + rewrite retained_cons_true by done. split; [done|].
      intros H. specialize (H p0). rewrite elem_of_cons in H.
      rewrite H in Hauto0; [done | by left].
    + rewrite retained_cons_false, IH by done.
      split; intros H p.
      * rewrite elem_of_cons. intros [->|Hp]; [done | by apply H].
      * intros Hp. apply H. apply elem_of_cons; by right.
Qed.

Lemma builtFrom_nodePool m pools group :
  Forall2 (builtFrom m) pools group → map nodePool group = pools.
Proof.
  induction 1 as [|p g ps gs Hb _ IH]; [done|].
  simpl. destruct Hb as (_ & _ & _ & -> & _). by rewrite IH.
Qed.

(** ** [ensureCapacityMap] touches the capacity table only, and only when
    it succeeds; it never lists node pools. *)
Lemma ensureCapacityMap_frame m w :
  let r := ensureCapacityMap m w in
  client (result r).2 = client m ∧
  clusterID (result r).2 = clusterID m ∧
  nodeGroups (result r).2 = nodeGroups m ∧
  mSizeLister (result r).2 = mSizeLister m ∧
  (is_Some (result r).1 → (result r).2 = m) ∧
  filter (λ c, isListNodePools c = true) (calls r) = [].
Proof.
  unfold ensureCapacityMap. case_decide; [|by repeat split].
  unfold mbind, Api_bind, apiBind, callSizesList.
  destruct (List (mSizeLister m) w) as [[sizes [e|]] w1]; simpl;
    repeat split; try done; by intros [??].
Qed.

(** ** Case analysis of [Refresh] along its three exits *)
Lemma Refresh_cases m w :
  ∃ err1 m1 w1 t1,
    ensureCapacityMap m w = ((err1, m1), w1, t1) ∧
    match err1 with
    | Some e => Refresh m w = ((Some e, m1), w1, t1)
    | None =>
        ∃ pools err2 w2,
          ListNodePools (client m1) (clusterID m1) w1 = ((pools, err2), w2) ∧
          let t := t1 ++ [CallListNodePools (clusterID m1)] in
          match err2 with
          | Some e => Refresh m w = ((Some e, m1), w2, t)
          | None =>
              match refreshLoop m1 pools [] with
              | inl e => Refresh m w = ((Some e, m1), w2, t)
              | inr group => Refresh m w = ((None, setNodeGroups m1 group), w2, t)
              end
          end
    end.
Proof.
  unfold Refresh, mbind, Api_bind, apiBind.
  destruct (ensureCapacityMap m w) as [[[err1 m1] w1] t1].
  exists err1, m1, w1, t1. split; [done|].
  destruct err1 as [e|]; simpl; [by rewrite app_nil_r|].
  unfold callListNodePools.
  destruct (ListNodePools (client m1) (clusterID m1) w1) as [[pools err2] w2].
  exists pools, err2, w2. split; [done|].
  destruct err2 as [e|]; simpl; [done|].
  by destruct (refreshLoop m1 pools []).
Qed.

Lemma refreshLoop_setNodeGroups m cache pools : ∀ group,
  refreshLoop (setNodeGroups m cache) pools group = refreshLoop m pools group.
Proof.
  induction pools as [|p pools IH]; intros group; simpl; [done|].
  destruct (AutoScale p); simpl; [|done].
  by destruct (capacityByDropletSlug m !! Size p).
Qed.

Lemma ensureCapacityMap_setNodeGroups m cache w :
  ensureCapacityMap (setNodeGroups m cache) w
  = (((result (ensureCapacityMap m w)).1,
      setNodeGroups (result (ensureCapacityMap m w)).2 cache),
     world (ensureCapacityMap m w), calls (ensureCapacityMap m w)).
Proof.
  unfold ensureCapacityMap. simpl. case_decide; [|done].
  unfold mbind, Api_bind, apiBind, callSizesList.
  by destruct (List (mSizeLister m) w) as [[sizes [e|]] w1].
Qed.

(** The cache a refresh starts from has no influence on what it does: it is
    overwritten on success and handed back on failure. *)
Lemma Refresh_setNodeGroups m cache w :
  returned (setNodeGroups m cache) w = returned m w ∧
  world (Refresh (setNodeGroups m cache) w) = world (Refresh m w) ∧
  calls (Refresh (setNodeGroups m cache) w) = calls (Refresh m w) ∧
  after (setNodeGroups m cache) w
  = match returned m w with
    | None => after m w
    | Some _ => setNodeGroups (after m w) cache
    end.
Proof.
  unfold returned, after, Refresh, mbind, Api_bind, apiBind.
  rewrite ensureCapacityMap_setNodeGroups.
  destruct (ensureCapacityMap m w) as [[[err1 m1] w1] t1].
  unfold result, world, calls; simpl.
  destruct err1 as [e|]; simpl; [done|].
  unfold callListNodePools.
  destruct (ListNodePools (client m1) (clusterID m1) w1) as [[pools err2] w2].
  destruct err2 as [e|]; simpl; [done|].
  rewrite refreshLoop_setNodeGroups.
  by destruct (refreshLoop m1 pools []).
Qed.

(** [Refresh] read through [returned], [after] and [listedBy]. *)
Lemma Refresh_outcome m w :
  let r1 := ensureCapacityMap m w in
  let m1 := (result r1).2 in
  match (result r1).1 with
  | Some e => returned m w = Some e ∧ after m w = m1
  | None =>
      match (listedBy m w).1.2 with
      | Some e => returned m w = Some e ∧ after m w = m1
      | None =>
          match refreshLoop m1 (listedBy m w).1.1 [] with
          | inl e => returned m w = Some e ∧ after m w = m1
          | inr group => returned m w = None ∧ after m w = setNodeGroups m1 group
          end
      end
  end.
Proof.
  unfold returned, after, listedBy, result, world.
  destruct (Refresh_cases m w) as (err1 & m1 & w1 & t1 & -> & H). simpl.
  destruct err1 as [e|]; [by rewrite H|].
  destruct H as (pools & err2 & w2 & -> & H). simpl in *.
  destruct err2 as [e|]; [by rewrite H|].
  destruct (refreshLoop m1 pools []); by rewrite H.
Qed.

(** A successful refresh: both calls succeeded and the loop ran to its
    end. *)
Lemma Refresh_success m w :
  returned m w = None →
  (result (ensureCapacityMap m w)).1 = None ∧
  (listedBy m w).1.2 = None ∧
  ∃ group,
    refreshLoop (result (ensureCapacityMap m w)).2 (listedBy m w).1.1 [] = inr group ∧
    after m w = setNodeGroups (result (ensureCapacityMap m w)).2 group.
Proof.
  intros Hret. pose proof (Refresh_outcome m w) as H. simpl in H.
  destruct ((result (ensureCapacityMap m w)).1); [destruct H; congruence|].
  destruct ((listedBy m w).1.2); [destruct H; congruence|].
  destruct (refreshLoop _ _ []) as [e|group]; [destruct H; congruence|].
  destruct H as [_ H]. eauto.
Qed.

Lemma Refresh_success_built m w :
  returned m w = None →
  Forall2 (builtFrom (after m w)) (retained (listedBy m w).1.1) (nodeGroups (after m w)).
Proof.
  intros (_ & _ & group & Hloop & ->)%Refresh_success.
  apply refreshLoop_ok in Hloop as (built & -> & Hbuilt). done.
Qed.

Lemma Refresh_after m w :
  after m w = (result (ensureCapacityMap m w)).2
  ∨ returned m w = None
    ∧ ∃ group, after m w = setNodeGroups (result (ensureCapacityMap m w)).2 group.
Proof.
  pose proof (Refresh_outcome m w) as H. simpl in H.
  destruct ((result (ensureCapacityMap m w)).1); [left; apply H|].
  destruct ((listedBy m w).1.2); [left; apply H|].
  destruct (refreshLoop _ _ []) as [e|group]; [left; apply H|].
  right. split; [apply H|]. exists group. apply H.
Qed.

Lemma Refresh_failed_cache m w :
  is_Some (returned m w) → nodeGroups (after m w) = nodeGroups m.
Proof.
  intros [e He].
  destruct (ensureCapacityMap_frame m w) as (_ & _ & Hgroups & _).
  destruct (Refresh_after m w) as [-> | [Hnil _]]; [exact Hgroups | congruence].
Qed.

Lemma Refresh_clusterID m w : clusterID (after m w) = clusterID m.
Proof.
  destruct (ensureCapacityMap_frame m w) as (_ & Hid & _).
  by destruct (Refresh_after m w) as [-> | [_ [group ->]]].
Qed.

End Lemmas.

(** ** The code on the provider test's listing *)

(** The listing of [testCloudProvider]: three node groups come out, as
    [TestDigitalOceanCloudProvider_NodeGroups] expects, and the sizes are
    listed before the pools. *)
Example Refresh_example_groups :
  returned freshManager [(examplePools, None)] = None
  ∧ map id (nodeGroups (after freshManager [(examplePools, None)])) = ["1"; "2"; "3"]
  ∧ map (λ g, (minSize g, maxSize g, ngCpus g, ngMemory g))
        (nodeGroups (after freshManager [(examplePools, None)]))
    = [(1, 3, 1, 2048); (2, 5, 2, 4096); (1, 10, 1, 2048)]
  ∧ calls (Refresh freshManager [(examplePools, None)])
    = [CallSizesList; CallListNodePools "123456"].
Proof. by vm_compute. Qed.

(** The second refresh finds the table populated and lists the pools only. *)
Example Refresh_example_second :
  calls (Refresh (after freshManager twoListings) (world (Refresh freshManager twoListings)))
  = [CallListNodePools "123456"].
Proof. by vm_compute. Qed.

Example Refresh_example_unknown_slug :
  returned warmManager [(unknownSizePools, None)]
  = Some (fmtErrorfQ "no capacity data found for droplet slug %q" "m-unknown").
Proof. by vm_compute. Qed.

Example Refresh_example_listing_fails :
  returned warmManager [(examplePools, Some timeout)] = Some timeout
  ∧ returned warmManager [] = Some (errorsNew "mock: unexpected call to ListNodePools").
Proof. by vm_compute. Qed.

(** ** The claims about [Refresh] *)

(** C1.  Whatever the manager and whatever the collaborators answer, a
    [Refresh] that returns an error (from [ensureCapacityMap], from
    [ListNodePools] or from a capacity lookup) leaves [nodeGroups] as it
    was; the cache differs from the previous one only when [Refresh]
    returned [nil]. *)
Theorem Refresh_error_keeps_cache {World} (m : Manager World) (w : World) :
  (is_Some (returned m w) → nodeGroups (after m w) = nodeGroups m) ∧
  (nodeGroups (after m w) ≠ nodeGroups m → returned m w = None).
Proof.
  split; [apply Refresh_failed_cache|].
  intros Hdiff. destruct (returned m w) as [e|] eqn:Hret; [|done].
  destruct Hdiff. apply Refresh_failed_cache. rewrite Hret. by eexists.
Qed.

Lemma Refresh_error_keeps_cache_witness :
  (is_Some (returned warmManager [(unknownSizePools, None)])
   ∧ nodeGroups (after warmManager [(unknownSizePools, None)]) = [staleGroup])
  ∧ (is_Some (returned warmManager [(examplePools, Some timeout)])
     ∧ nodeGroups (after warmManager [(examplePools, Some timeout)]) = [staleGroup])
  ∧ (is_Some (returned sizelessManager [(examplePools, None)])
     ∧ nodeGroups (after sizelessManager [(examplePools, None)]) = [staleGroup]).
Proof.
  split; [|split]; (split; [vm_compute; by eexists|]).
  - apply (proj1 (Refresh_error_keeps_cache warmManager [(unknownSizePools, None)])).
    vm_compute. by eexists.
  - apply (proj1 (Refresh_error_keeps_cache warmManager [(examplePools, Some timeout)])).
    vm_compute. by eexists.
  - apply (proj1 (Refresh_error_keeps_cache sizelessManager [(examplePools, None)])).
    vm_compute. by eexists.
Defined.

(** C7.  [Refresh] never changes the configuration-derived fields: after
    any call, failed or not, [clusterID], [client] and [sizeLister] are what
    they were, so that only [nodeGroups] and [capacityByDropletSlug] can
    differ. *)
Theorem Refresh_frame {World} (m : Manager World) (w : World) :
  clusterID (after m w) = clusterID m ∧
  client (after m w) = client m ∧
  mSizeLister (after m w) = mSizeLister m.
Proof.
  destruct (ensureCapacityMap_frame m w) as (Hcl & Hid & _ & Hsz & _).
  simpl in Hcl, Hid, Hsz.
  by destruct (Refresh_after m w) as [-> | [_ [group ->]]].
Qed.

(** C8.  No retry and no rewrapping: one call of [Refresh] invokes
    [ListNodePools] at most once, and when that invocation fails [Refresh]
    returns the very error value it produced. *)
Theorem Refresh_ListNodePools_once {World} (m : Manager World) (w : World) :
  (length (filter (λ c, isListNodePools c = true) (calls (Refresh m w))) ≤ 1)%nat ∧
  ∀ e, (result (ensureCapacityMap m w)).1 = None →
       (listedBy m w).1.2 = Some e →
       returned m w = Some e.
Proof.
  split.
  - destruct (ensureCapacityMap_frame m w) as (_ & _ & _ & _ & _ & Hnone).
    simpl in Hnone.
    destruct (Refresh_cases m w) as (err1 & m1 & w1 & t1 & Heq & H).
    rewrite Heq in Hnone. unfold calls in *. simpl in Hnone.
    destruct err1 as [e|].
    + rewrite H. simpl. rewrite Hnone. simpl. lia.
    + destruct H as (pools & err2 & w2 & _ & H). simpl in H.
      assert (calls (Refresh m w) = t1 ++ [CallListNodePools (clusterID m1)]) as Ht.
      { destruct err2; [by rewrite H|]. destruct (refreshLoop m1 pools []); by rewrite H. }
      unfold calls in Ht. rewrite Ht, filter_app, Hnone.
      rewrite filter_cons_True by done. simpl. lia.
  - intros e Hens Hlist.
    pose proof (Refresh_outcome m w) as H. simpl in H.
    rewrite Hens, Hlist in H. apply H.
Qed.

Lemma Refresh_ListNodePools_once_witness :
  (result (ensureCapacityMap warmManager [(examplePools, Some timeout)])).1 = None
  ∧ (listedBy warmManager [(examplePools, Some timeout)]).1.2 = Some timeout
  ∧ returned warmManager [(examplePools, Some timeout)] = Some timeout.
Proof.
  split; [by vm_compute|]. split; [by vm_compute|].
  apply (Refresh_ListNodePools_once warmManager [(examplePools, Some timeout)]);
    by vm_compute.
Defined.

(** C2.  A successful [Refresh] publishes one entry for each listed pool
    whose [AutoScale] flag is set and none for a pool whose flag is clear:
    the pools of the published entries are, counted with multiplicity, the
    auto-scalable pools of the listing. *)
Theorem Refresh_keeps_autoscalable {World} (m : Manager World) (w : World) :
  returned m w = None →
  let pools := (listedBy m w).1.1 in
  let groups := nodeGroups (after m w) in
  map nodePool groups ≡ₚ filter (λ p, AutoScale p = true) pools ∧
  length groups = length (filter (λ p, AutoScale p = true) pools) ∧
  (∀ p, p ∈ pools → AutoScale p = true → ∃ g, g ∈ groups ∧ nodePool g = p) ∧
  (∀ p, p ∈ pools → AutoScale p = false → ∀ g, g ∈ groups → nodePool g ≠ p) ∧
  (∀ g, g ∈ groups → nodePool g ∈ pools ∧ AutoScale (nodePool g) = true).
Proof.
  intros Hret pools groups.
  pose proof (Refresh_success_built m w Hret) as Hbuilt.
  apply builtFrom_nodePool in Hbuilt. fold pools groups in Hbuilt.
  change (filter (λ p, AutoScale p = true) pools) with (retained pools).
  assert (∀ g, g ∈ groups → nodePool g ∈ pools ∧ AutoScale (nodePool g) = true) as Hin.
  { intros g Hg.
    assert (nodePool g ∈ retained pools) as Hp
      by (rewrite <- Hbuilt; by apply list_elem_of_fmap_2).
    apply list_elem_of_filter in Hp. tauto. }
  repeat split.
  - by rewrite Hbuilt.
  - by rewrite <- Hbuilt, length_map.
  - intros p Hp Hauto.
    assert (p ∈ map nodePool groups) as Hq
      by (rewrite Hbuilt; by apply list_elem_of_filter).
    apply list_elem_of_fmap in Hq as (g & -> & Hg). eauto.
  - intros p Hp Hauto g Hg Heq. apply Hin in Hg as [_ Hg]. congruence.
  - by apply Hin.
  - by apply Hin.
Qed.

Lemma Refresh_keeps_autoscalable_witness :
  returned warmManager [(examplePools, None)] = None
  ∧ map ID (map nodePool (nodeGroups (after warmManager [(examplePools, None)])))
    = ["1"; "2"; "3"]
  ∧ map nodePool (nodeGroups (after warmManager [(examplePools, None)]))
    ≡ₚ filter (λ p, AutoScale p = true) examplePools.
Proof.
  split; [by vm_compute|]. split; [by vm_compute|].
  apply (Refresh_keeps_autoscalable warmManager [(examplePools, None)]).
  by vm_compute.
Defined.

(** C3.  When the capacity table has been ensured and [ListNodePools] has
    succeeded, an auto-scalable pool whose size slug is not a key of the
    table makes [Refresh] return an error (naming the slug of such a pool),
    and nothing is published. *)
Theorem Refresh_unknown_size_fails {World} (m : Manager World) (w : World)
    (p : KubernetesNodePool) :
  (result (ensureCapacityMap m w)).1 = None →
  (listedBy m w).1.2 = None →
  p ∈ (listedBy m w).1.1 →
  AutoScale p = true →
  capacityByDropletSlug (result (ensureCapacityMap m w)).2 !! Size p = None →
  (∃ q, q ∈ (listedBy m w).1.1 ∧ AutoScale q = true ∧
        capacityByDropletSlug (result (ensureCapacityMap m w)).2 !! Size q = None ∧
        returned m w
        = Some (fmtErrorfQ "no capacity data found for droplet slug %q" (Size q))) ∧
  nodeGroups (after m w) = nodeGroups m.
Proof.
  intros Hens Hlist Hp Hauto Hcap.
  destruct (refreshLoop_missing _ _ [] p Hp Hauto Hcap) as (q & Hq & Hqa & Hqc & Hloop).
  pose proof (Refresh_outcome m w) as H. simpl in H.
  rewrite Hens, Hlist, Hloop in H. destruct H as [Hret Hafter].
  split; [by exists q|].
  apply Refresh_failed_cache. rewrite Hret. by eexists.
Qed.

Lemma Refresh_unknown_size_fails_witness :
  (result (ensureCapacityMap warmManager [(unknownSizePools, None)])).1 = None
  ∧ (listedBy warmManager [(unknownSizePools, None)]).1.2 = None
  ∧ unknownPool ∈ (listedBy warmManager [(unknownSizePools, None)]).1.1
  ∧ AutoScale unknownPool = true
  ∧ capacityByDropletSlug
      (result (ensureCapacityMap warmManager [(unknownSizePools, None)])).2
      !! Size unknownPool = None
  ∧ is_Some (returned warmManager [(unknownSizePools, None)])
  ∧ nodeGroups (after warmManager [(unknownSizePools, None)]) = [staleGroup].
Proof.
  assert (unknownPool ∈ (listedBy warmManager [(unknownSizePools, None)]).1.1) as Hin.
  { vm_compute. apply elem_of_cons. right. apply elem_of_cons. by left. }
  split; [by vm_compute|]. split; [by vm_compute|]. split; [exact Hin|].
  split; [by vm_compute|]. split; [by vm_compute|].
  destruct (Refresh_unknown_size_fails warmManager [(unknownSizePools, None)] unknownPool)
    as [(q & _ & _ & _ & Hq) Hkeep];
    [by vm_compute | by vm_compute | exact Hin | by vm_compute | by vm_compute |].
  split; [rewrite Hq; by eexists | exact Hkeep].
Defined.

(** C4.  When ensuring the capacity table and listing the pools both
    succeed and no listed pool is auto-scalable (the listing may be empty),
    [Refresh] returns [nil] and the cache becomes empty. *)
Theorem Refresh_no_autoscalable {World} (m : Manager World) (w : World) :
  (result (ensureCapacityMap m w)).1 = None →
  (listedBy m w).1.2 = None →
  (∀ p, p ∈ (listedBy m w).1.1 → AutoScale p = false) →
  returned m w = None ∧ nodeGroups (after m w) = [].
Proof.
  intros Hens Hlist Hnone.
  pose proof (Refresh_outcome m w) as H. simpl in H.
  rewrite Hens, Hlist in H.
  destruct (refreshLoop_covered (result (ensureCapacityMap m w)).2
              (listedBy m w).1.1 []) as [group Hloop].
  { intros p Hp Hauto. rewrite (Hnone p Hp) in Hauto. discriminate. }
  rewrite Hloop in H. destruct H as [Hret Hafter]. split; [done|].
  apply refreshLoop_ok in Hloop as (built & -> & Hbuilt).
  apply retained_nil_iff in Hnone. rewrite Hnone in Hbuilt.
  apply Forall2_nil_inv_l in Hbuilt as ->. by rewrite Hafter.
Qed.

Lemma Refresh_no_autoscalable_witness :
  ((result (ensureCapacityMap warmManager [(fixedPools, None)])).1 = None
   ∧ (listedBy warmManager [(fixedPools, None)]).1.2 = None
   ∧ Forall (λ p, AutoScale p = false) (listedBy warmManager [(fixedPools, None)]).1.1
   ∧ returned warmManager [(fixedPools, None)] = None
   ∧ nodeGroups (after warmManager [(fixedPools, None)]) = [])
  ∧ ((result (ensureCapacityMap warmManager [([], None)])).1 = None
     ∧ (listedBy warmManager [([], None)]).1.2 = None
     ∧ (listedBy warmManager [([], None)]).1.1 = []
     ∧ returned warmManager [([], None)] = None
     ∧ nodeGroups (after warmManager [([], None)]) = []).
Proof.
  assert (Forall (λ p, AutoScale p = false)
            (listedBy warmManager [(fixedPools, None)]).1.1) as Hfixed.
  { vm_compute. by repeat constructor. }
  split.
  - split; [by vm_compute|]. split; [by vm_compute|]. split; [exact Hfixed|].
    apply (Refresh_no_autoscalable warmManager [(fixedPools, None)]);
      [by vm_compute | by vm_compute |].
    by apply Forall_forall.
  - split; [by vm_compute|]. split; [by vm_compute|]. split; [by vm_compute|].
    apply (Refresh_no_autoscalable warmManager [([], None)]);
      [by vm_compute | by vm_compute |].
    intros p Hp. vm_compute in Hp. by apply elem_of_nil in Hp.
Defined.

(** The entry of a pool is determined by the manager and the pool. *)
Lemma builtFrom_unique {World} (m : Manager World) (p : KubernetesNodePool)
    (g g' : NodeGroup World) :
  builtFrom m p g → builtFrom m p g' → g = g'.
Proof.
  intros (? & ? & ? & ? & ? & ? & cap & Hcap & ? & ?)
         (? & ? & ? & ? & ? & ? & cap' & Hcap' & ? & ?).
  assert (cap' = cap) as -> by congruence.
  destruct g, g'; simpl in *; congruence.
Qed.

Lemma builtFrom_list_unique {World} (m : Manager World)
    (pools : list KubernetesNodePool) (gs gs' : list (NodeGroup World)) :
  Forall2 (builtFrom m) pools gs → Forall2 (builtFrom m) pools gs' → gs = gs'.
Proof.
  intros H. revert gs'.
  induction H as [|p g ps gs Hb _ IH]; intros gs' H'.
  - by apply Forall2_nil_inv_l in H'.
  - apply Forall2_cons_inv_l in H' as (g' & gs1 & Hb' & Hrest & ->).
    by rewrite (builtFrom_unique m p g g' Hb Hb'), (IH gs1 Hrest).
Qed.

(** C5.  Of two consecutive successful refreshes, the second leaves exactly
    the list built from its own listing: each retained pool of that listing
    has its entry, in order, and nothing else; the list is the same whatever
    cache the second call found and whatever cache the first call started
    from. *)
Theorem Refresh_twice_replaces {World} (m0 : Manager World) (w0 : World) :
  let m1 := after m0 w0 in
  let w1 := world (Refresh m0 w0) in
  let m2 := after m1 w1 in
  returned m0 w0 = None →
  returned m1 w1 = None →
  Forall2 (builtFrom m2) (retained (listedBy m1 w1).1.1) (nodeGroups m2) ∧
  (∀ groups, Forall2 (builtFrom m2) (retained (listedBy m1 w1).1.1) groups →
             groups = nodeGroups m2) ∧
  (∀ cache, nodeGroups (after (setNodeGroups m1 cache) w1) = nodeGroups m2) ∧
  (∀ cache0,
     nodeGroups (after (after (setNodeGroups m0 cache0) w0)
                       (world (Refresh (setNodeGroups m0 cache0) w0)))
     = nodeGroups m2).
Proof.
  intros m1 w1 m2 Hfirst Hsecond.
  pose proof (Refresh_success_built m1 w1 Hsecond) as Hbuilt. fold m2 in Hbuilt.
  split; [exact Hbuilt|]. split; [|split].
  - intros groups Hgroups. by apply (builtFrom_list_unique m2 _ _ _ Hgroups).
  - intros cache.
    destruct (Refresh_setNodeGroups m1 cache w1) as (_ & _ & _ & ->).
    by rewrite Hsecond.
  - intros cache0.
    destruct (Refresh_setNodeGroups m0 cache0 w0) as (_ & -> & _ & ->).
    by rewrite Hfirst.
Qed.

Lemma Refresh_twice_replaces_witness :
  returned warmManager twoListings = None
  ∧ returned (after warmManager twoListings) (world (Refresh warmManager twoListings))
    = None
  ∧ map id (nodeGroups (after warmManager twoListings)) = ["1"; "2"; "3"]
  ∧ map id (nodeGroups (after (after warmManager twoListings)
                              (world (Refresh warmManager twoListings))))
    = ["2"]
  ∧ nodeGroups (after (setNodeGroups (after warmManager twoListings)
                                     [staleGroup; staleGroup])
                      (world (Refresh warmManager twoListings)))
    = nodeGroups (after (after warmManager twoListings)
                        (world (Refresh warmManager twoListings))).
Proof.
  split; [by vm_compute|]. split; [by vm_compute|].
  split; [by vm_compute|]. split; [by vm_compute|].
  apply (Refresh_twice_replaces warmManager twoListings); by vm_compute.
Defined.

(** C6.  The entry a successful [Refresh] publishes for a retained pool
    carries the pool's [ID], the manager's cluster identifier, the pool's
    [MinNodes] and [MaxNodes], and the [cpus] and [memory] of the capacity
    table's entry for the pool's size slug. *)
Theorem Refresh_entry_fields {World} (m : Manager World) (w : World) :
  returned m w = None →
  Forall2
    (λ p g,
       id g = ID p ∧
       ngClusterID g = clusterID m ∧
       minSize g = MinNodes p ∧
       maxSize g = MaxNodes p ∧
       ∃ cap, capacityByDropletSlug (after m w) !! Size p = Some cap
              ∧ ngCpus g = cpus cap ∧ ngMemory g = memory cap)
    (filter (λ p, AutoScale p = true) (listedBy m w).1.1)
    (nodeGroups (after m w)).
Proof.
  intros Hret.
  pose proof (Refresh_success_built m w Hret) as Hbuilt.
  pose proof (Refresh_clusterID m w) as Hid.
  eapply Forall2_impl; [exact Hbuilt|].
  intros p g (? & ? & ? & ? & ? & ? & cap & ? & ? & ?).
  repeat split; try done; [congruence | by exists cap].
Qed.

Lemma Refresh_entry_fields_witness :
  returned freshManager [(examplePools, None)] = None
  ∧ Forall2
      (λ p g,
         id g = ID p ∧
         ngClusterID g = "123456" ∧
         minSize g = MinNodes p ∧
         maxSize g = MaxNodes p ∧
         ∃ cap, capacityByDropletSlug (after freshManager [(examplePools, None)])
                  !! Size p = Some cap
                ∧ ngCpus g = cpus cap ∧ ngMemory g = memory cap)
      (filter (λ p, AutoScale p = true) examplePools)
      (nodeGroups (after freshManager [(examplePools, None)])).
Proof.
  split; [by vm_compute|].
  apply (Refresh_entry_fields freshManager [(examplePools, None)]).
  by vm_compute.
Defined.

(** C9.  Order preservation: the entries published by a successful
    [Refresh] follow the order of the listing; their pools are the
    auto-scalable pools of the [ListNodePools] answer, in the same relative
    order. *)
Theorem Refresh_preserves_order {World} (m : Manager World) (w : World) :
  returned m w = None →
  map nodePool (nodeGroups (after m w))
  = filter (λ p, AutoScale p = true) (listedBy m w).1.1 ∧
  map nodePool (nodeGroups (after m w)) `sublist_of` (listedBy m w).1.1.
Proof.
  intros Hret.
  pose proof (Refresh_success_built m w Hret) as Hbuilt.
  apply builtFrom_nodePool in Hbuilt. rewrite Hbuilt.
  split; [done | apply sublist_filter].
Qed.

Lemma Refresh_preserves_order_witness :
  returned freshManager [(examplePools, None)] = None
  ∧ map ID (map nodePool (nodeGroups (after freshManager [(examplePools, None)])))
    = ["1"; "2"; "3"]
  ∧ map nodePool (nodeGroups (after freshManager [(examplePools, None)]))
    `sublist_of` examplePools.
Proof.
  split; [by vm_compute|]. split; [by vm_compute|].
  apply (Refresh_preserves_order freshManager [(examplePools, None)]).
  by vm_compute.
Defined.

(** ** The constructor *)

(** C10.  [newManager] returns an error when the configuration it parsed
    has an empty access token or an empty cluster ID; a [nil] reader leaves
    both empty.  When it returns no error, the manager it returns has an
    empty node-group list and an empty capacity table. *)
Theorem newManager_validates {World}
    (jsonUnmarshal : string → Config → Config * option error)
    (godoNew : oauthClient → list ClientOpt → godoClient World * option error) :
  (∃ e, newManager jsonUnmarshal godoNew None = (None, Some e)) ∧
  (∀ rd body cfg,
     ReadAll rd = (body, None) →
     jsonUnmarshal body {| ClusterID := EmptyString; Token := EmptyString;
                           URL := EmptyString |} = (cfg, None) →
     Token cfg = EmptyString ∨ ClusterID cfg = EmptyString →
     ∃ e, newManager jsonUnmarshal godoNew (Some rd) = (None, Some e)) ∧
  (∀ configReader r,
     newManager jsonUnmarshal godoNew configReader = (r, None) →
     ∃ m, r = Some m ∧ nodeGroups m = [] ∧ capacityByDropletSlug m = ∅).
Proof.
  split; [|split].
  - by eexists.
  - intros rd body cfg Hread Hjson Hempty. unfold newManager.
    rewrite Hread, Hjson.
    destruct (decide (Token cfg = EmptyString)); [by eexists|].
    destruct (decide (ClusterID cfg = EmptyString)); [by eexists|].
    by destruct Hempty.
  - intros configReader r. unfold newManager.
    set (cfg0 := {| ClusterID := EmptyString; Token := EmptyString; URL := EmptyString |}).
    destruct (match configReader with
              | Some rd => let '(body, err) := ReadAll rd in
                           match err with
                           | Some e => (cfg0, Some e)
                           | None => jsonUnmarshal body cfg0
                           end
              | None => (cfg0, None)
              end) as [cfg [e|]]; [done|].
    destruct (decide (Token cfg = EmptyString)); [done|].
    destruct (decide (ClusterID cfg = EmptyString)); [done|].
    destruct (godoNew _ _) as [doClient [e|]]; [done|].
    intros [= <-]. by eexists.
Qed.

Lemma newManager_validates_witness :
  (ReadAll {| ReadAll := ("tokenless", None) |} = ("tokenless", None)
   ∧ Token (knownDocuments "tokenless"
              {| ClusterID := EmptyString; Token := EmptyString; URL := EmptyString |}).1
     = EmptyString
   ∧ ∃ e, newManager knownDocuments alwaysClient
            (Some {| ReadAll := ("tokenless", None) |}) = (None, Some e))
  ∧ (∃ m, (newManager knownDocuments alwaysClient
             (Some {| ReadAll := ("full", None) |})).1 = Some m
          ∧ nodeGroups m = [] ∧ capacityByDropletSlug m = ∅).
Proof.
  pose proof (newManager_validates knownDocuments alwaysClient) as (_ & Hbad & Hok).
  split.
  - split; [done|]. split; [done|].
    apply (Hbad {| ReadAll := ("tokenless", None) |} "tokenless"
             {| ClusterID := "123456"; Token := EmptyString; URL := EmptyString |});
      [done | done | by left].
  - destruct (Hok (Some {| ReadAll := ("full", None) |})
                (newManager knownDocuments alwaysClient
                   (Some {| ReadAll := ("full", None) |})).1) as (m & Hm & Hrest);
      [done|].
    by exists m.
Defined.

(** * Further properties of the constructor *)

Section ConstructorLemmas.

Context {World : Type}.
Variable jsonUnmarshal : string → Config → Config * option error.
Variable godoNew : oauthClient → list ClientOpt → godoClient World * option error.

(** [newManager], stage by stage. *)
Lemma newManager_stages (configReader : option Reader) :
  newManager jsonUnmarshal godoNew configReader =
  match parsedConfig jsonUnmarshal configReader with
  | (_, Some e) => (None, Some e)
  | (cfg, None) =>
      if decide (Token cfg = EmptyString) then
        (None, Some (errorsNew "access token is not provided"))
      else if decide (ClusterID cfg = EmptyString) then
        (None, Some (errorsNew "cluster ID is not provided"))
      else
        match godoNew {| AccessToken := Token cfg |} (clientOpts cfg) with
        | (_, Some e) =>
            (None, Some (fmtErrorfS "couldn't initialize DigitalOcean client: %s" e))
        | (doClient, None) =>
            (Some {| client := Kubernetes doClient;
                     clusterID := ClusterID cfg;
                     nodeGroups := [];
                     mSizeLister := Sizes doClient;
                     capacityByDropletSlug := ∅ |}, None)
        end
  end.
Proof.
  unfold newManager, parsedConfig, clientOpts, zeroConfig.
  destruct configReader as [rd|].
  - destruct (ReadAll rd) as [body [e|]]; [done|].
    destruct (jsonUnmarshal body _) as [cfg [e|]]; [done|].
    destruct (decide (Token cfg = EmptyString)) as [Htok|Htok]; [done|].
    destruct (decide (ClusterID cfg = EmptyString)) as [Hcl|Hcl]; [done|].
    destruct (decide (URL cfg = EmptyString)) as [Hurl|Hurl]; simpl;
      by destruct (godoNew _ _) as [doClient [e|]].
  - done.
Qed.

Lemma configRead_parsed (configReader : option Reader) (cfg : Config) :
  configRead jsonUnmarshal configReader cfg
  ↔ parsedConfig jsonUnmarshal configReader = (cfg, None).
Proof.
  unfold configRead, parsedConfig. destruct configReader as [rd|].
  - destruct (ReadAll rd) as [body [e|]].
    + split; [intros (b & [=] & _) | done].
    + split; [intros (b & [= <-] & H); exact H | intros H; by exists body].
  - split; [by intros -> | by intros [= <-]].
Qed.

End ConstructorLemmas.

(** X1.  [newManager] hands back either a manager and no error, or an error
    and no manager; never both and never neither. *)
Theorem newManager_manager_xor_error {World}
    (jsonUnmarshal : string → Config → Config * option error)
    (godoNew : oauthClient → list ClientOpt → godoClient World * option error)
    (configReader : option Reader) :
  (∃ m, newManager jsonUnmarshal godoNew configReader = (Some m, None)) ∨
  (∃ e, newManager jsonUnmarshal godoNew configReader = (None, Some e)).
Proof.
  rewrite newManager_stages.
  destruct (parsedConfig jsonUnmarshal configReader) as [cfg [e|]]; [right; by eexists|].
  destruct (decide (Token cfg = EmptyString)) as [Htok|Htok]; [right; by eexists|].
  destruct (decide (ClusterID cfg = EmptyString)) as [Hcl|Hcl]; [right; by eexists|].
  destruct (godoNew _ _) as [doClient [e|]]; [right | left]; by eexists.
Qed.

(** X2.  A failure to read the configuration, and a failure to decode it,
    come back as the very error [ioutil.ReadAll], respectively
    [json.Unmarshal], produced. *)
Theorem newManager_read_errors {World}
    (jsonUnmarshal : string → Config → Config * option error)
    (godoNew : oauthClient → list ClientOpt → godoClient World * option error)
    (rd : Reader) (e : error) :
  (ReadAll rd).2 = Some e
  ∨ (ReadAll rd).2 = None ∧ (jsonUnmarshal (ReadAll rd).1 zeroConfig).2 = Some e →
  newManager jsonUnmarshal godoNew (Some rd) = (None, Some e).
Proof.
  rewrite newManager_stages. unfold parsedConfig.
  destruct (ReadAll rd) as [body err]; simpl.
  intros [-> | [-> Hjson]]; [done|].
  destruct (jsonUnmarshal body zeroConfig) as [cfg err']; simpl in Hjson.
  by rewrite Hjson.
Qed.

Lemma newManager_read_errors_witness :
  ((ReadAll brokenReader).2 = Some timeout
   ∧ newManager moreDocuments alwaysClient (Some brokenReader) = (None, Some timeout))
  ∧ ((ReadAll garbageReader).2 = None
     ∧ (moreDocuments (ReadAll garbageReader).1 zeroConfig).2
       = Some (errorsNew "unexpected end of JSON input")
     ∧ newManager moreDocuments alwaysClient (Some garbageReader)
       = (None, Some (errorsNew "unexpected end of JSON input"))).
Proof.
  split.
  - split; [done|].
    apply (newManager_read_errors moreDocuments alwaysClient brokenReader timeout).
    by left.
  - split; [done|]. split; [done|].
    apply (newManager_read_errors moreDocuments alwaysClient garbageReader).
    by right.
Defined.

(** X3.  The access token is checked before the cluster ID: a configuration
    without a token is refused with [access token is not provided] whether
    or not it names a cluster (a [nil] reader gives this error), and one
    with a token but no cluster ID with [cluster ID is not provided]. *)
Theorem newManager_validation_order {World}
    (jsonUnmarshal : string → Config → Config * option error)
    (godoNew : oauthClient → list ClientOpt → godoClient World * option error)
    (configReader : option Reader) (cfg : Config) :
  configRead jsonUnmarshal configReader cfg →
  (Token cfg = EmptyString →
   newManager jsonUnmarshal godoNew configReader
   = (None, Some (errorsNew "access token is not provided"))) ∧
  (Token cfg ≠ EmptyString → ClusterID cfg = EmptyString →
   newManager jsonUnmarshal godoNew configReader
   = (None, Some (errorsNew "cluster ID is not provided"))).
Proof.
  intros Hread%configRead_parsed. rewrite newManager_stages, Hread.
  split.
  - intros Htok. by rewrite decide_True.
  - intros Htok Hcl. by rewrite decide_False, decide_True.
Qed.

Lemma newManager_validation_order_witness :
  (configRead moreDocuments None zeroConfig
   ∧ newManager moreDocuments alwaysClient None
     = (None, Some (errorsNew "access token is not provided")))
  ∧ (configRead moreDocuments (Some clusterlessReader)
       {| ClusterID := EmptyString; Token := "123-123-123"; URL := EmptyString |}
     ∧ newManager moreDocuments alwaysClient (Some clusterlessReader)
       = (None, Some (errorsNew "cluster ID is not provided"))).
Proof.
  assert (configRead moreDocuments (Some clusterlessReader)
            {| ClusterID := EmptyString; Token := "123-123-123"; URL := EmptyString |})
    as Hread by (by exists "clusterless").
  split.
  - split; [done|].
    by apply (newManager_validation_order moreDocuments alwaysClient None zeroConfig).
  - split; [exact Hread|].
    by apply (newManager_validation_order moreDocuments alwaysClient
                (Some clusterlessReader) _ Hread).
Defined.

(** X4.  When [godo.New] refuses a valid configuration, [newManager] returns
    no manager and the error
    [couldn't initialize DigitalOcean client: <the error of godo.New>]. *)
Theorem newManager_client_error {World}
    (jsonUnmarshal : string → Config → Config * option error)
    (godoNew : oauthClient → list ClientOpt → godoClient World * option error)
    (configReader : option Reader) (cfg : Config) (e : error) :
  configRead jsonUnmarshal configReader cfg →
  Token cfg ≠ EmptyString →
  ClusterID cfg ≠ EmptyString →
  (godoNew {| AccessToken := Token cfg |} (clientOpts cfg)).2 = Some e →
  newManager jsonUnmarshal godoNew configReader
  = (None, Some (fmtErrorfS "couldn't initialize DigitalOcean client: %s" e)).
Proof.
  intros Hread%configRead_parsed Htok Hcl Hnew.
  rewrite newManager_stages, Hread, !decide_False by done.
  destruct (godoNew _ _) as [doClient err]; simpl in Hnew. by rewrite Hnew.
Qed.

Lemma newManager_client_error_witness :
  configRead moreDocuments (Some fullReader)
    {| ClusterID := "123456"; Token := "123-123-123";
       URL := "https://api.digitalocean.com/v2" |}
  ∧ newManager moreDocuments refusingClient (Some fullReader)
    = (None, Some (fmtErrorfS "couldn't initialize DigitalOcean client: %s" badURL)).
Proof.
  assert (configRead moreDocuments (Some fullReader)
            {| ClusterID := "123456"; Token := "123-123-123";
               URL := "https://api.digitalocean.com/v2" |})
    as Hread by (by exists "full").
  split; [exact Hread|].
  by apply (newManager_client_error moreDocuments refusingClient (Some fullReader) _
              badURL Hread).
Defined.

(** X5.  [newManager] succeeds exactly when the configuration is read, names
    a token and a cluster, and [godo.New] accepts the token with the
    configuration's options.  The manager it returns then keeps the
    configuration's cluster ID, the [Kubernetes] and [Sizes] services of the
    client [godo.New] returned, an empty cache and an empty table. *)
Theorem newManager_success_iff {World}
    (jsonUnmarshal : string → Config → Config * option error)
    (godoNew : oauthClient → list ClientOpt → godoClient World * option error)
    (configReader : option Reader) (m : Manager World) :
  newManager jsonUnmarshal godoNew configReader = (Some m, None)
  ↔ ∃ cfg doClient,
      configRead jsonUnmarshal configReader cfg ∧
      Token cfg ≠ EmptyString ∧
      ClusterID cfg ≠ EmptyString ∧
      godoNew {| AccessToken := Token cfg |} (clientOpts cfg) = (doClient, None) ∧
      m = {| client := Kubernetes doClient;
             clusterID := ClusterID cfg;
             nodeGroups := [];
             mSizeLister := Sizes doClient;
             capacityByDropletSlug := ∅ |}.
Proof.
  rewrite newManager_stages. split.
  - destruct (parsedConfig jsonUnmarshal configReader) as [cfg [e|]] eqn:Hread; [done|].
    destruct (decide (Token cfg = EmptyString)) as [Htok|Htok]; [done|].
    destruct (decide (ClusterID cfg = EmptyString)) as [Hcl|Hcl]; [done|].
    destruct (godoNew _ _) as [doClient [e|]] eqn:Hnew; [done|].
    intros [= <-]. exists cfg, doClient.
    by rewrite configRead_parsed.
  - intros (cfg & doClient & Hread%configRead_parsed & Htok & Hcl & Hnew & ->).
    by rewrite Hread, !decide_False, Hnew.
Qed.

Lemma newManager_success_iff_witness :
  ∃ m, newManager moreDocuments alwaysClient (Some plainReader) = (Some m, None)
       ∧ clusterID m = "123456"
       ∧ client m = scriptedClient
       ∧ mSizeLister m = fixedSizes exampleSizes None.
Proof.
  exists (exampleManager (fixedSizes exampleSizes None)).
  split; [|done].
  apply (newManager_success_iff moreDocuments alwaysClient (Some plainReader)).
  exists {| ClusterID := "123456"; Token := "123-123-123"; URL := EmptyString |},
         {| Kubernetes := scriptedClient; Sizes := fixedSizes exampleSizes None |}.
  repeat split; try done. by exists "plain".
Defined.

(** X6.  [newManager] consults [godo.New] only with a non-empty access
    token and with options that end with the provider's user agent, hold at
    most a base URL before it, and never an empty base URL: two client
    factories that agree on such arguments give the same result. *)
Theorem newManager_godoNew_arguments {World}
    (jsonUnmarshal : string → Config → Config * option error)
    (godoNew godoNew' : oauthClient → list ClientOpt → godoClient World * option error)
    (configReader : option Reader) :
  (∀ oauth opts,
     AccessToken oauth ≠ EmptyString →
     last opts = Some (SetUserAgent "cluster-autoscaler-digitalocean/dev") →
     (length opts ≤ 2)%nat →
     SetBaseURL EmptyString ∉ opts →
     godoNew oauth opts = godoNew' oauth opts) →
  newManager jsonUnmarshal godoNew configReader
  = newManager jsonUnmarshal godoNew' configReader.
Proof.
  intros Hagree. rewrite !newManager_stages.
  destruct (parsedConfig jsonUnmarshal configReader) as [cfg [e|]]; [done|].
  destruct (decide (Token cfg = EmptyString)) as [Htok|Htok]; [done|].
  destruct (decide (ClusterID cfg = EmptyString)) as [Hcl|Hcl]; [done|].
  rewrite (Hagree {| AccessToken := Token cfg |} (clientOpts cfg)); [done|done|..];
    unfold clientOpts; destruct (decide (URL cfg = EmptyString)) as [Hurl|Hurl]; simpl;
    try done; try lia.
  - intros H. apply elem_of_cons in H as [[=]|H]. by apply elem_of_nil in H.
  - intros H. apply elem_of_cons in H as [[= H]|H]; [by rewrite H in Hurl|].
    apply elem_of_cons in H as [[=]|H]. by apply elem_of_nil in H.
Qed.

Lemma newManager_godoNew_arguments_witness :
  newManager moreDocuments alwaysClient (Some fullReader)
  = newManager moreDocuments strictClient (Some fullReader).
Proof.
  apply (newManager_godoNew_arguments moreDocuments alwaysClient strictClient).
  intros oauth opts Htok Hlast _ _. unfold strictClient.
  by rewrite decide_True.
Defined.

(** * Further properties of [Refresh] *)

Section LoopLemmas.

Context {World : Type}.
Implicit Types (m : Manager World) (pools : list KubernetesNodePool).
Implicit Types (group : list (NodeGroup World)).

(** The slice the loop starts from is only ever extended. *)
Lemma refreshLoop_from m pools : ∀ group,
  refreshLoop m pools group
  = match refreshLoop m pools [] with
    | inl e => inl e
    | inr built => inr (group ++ built)
    end.
Proof.
  induction pools as [|p pools IH]; intros group; simpl; [by rewrite app_nil_r|].
  destruct (AutoScale p); simpl; [|apply IH].
  destruct (capacityByDropletSlug m !! Size p) as [cap|]; [|done].
  rewrite (IH (group ++ _)), (IH [_]).
  destruct (refreshLoop m pools []); [done|]. by rewrite <- app_assoc.
Qed.

Lemma refreshLoop_app m pools1 pools2 : ∀ group,
  refreshLoop m (pools1 ++ pools2) group
  = match refreshLoop m pools1 group with
    | inl e => inl e
    | inr group' => refreshLoop m pools2 group'
    end.
Proof.
  induction pools1 as [|p pools1 IH]; intros group; simpl; [done|].
  destruct (AutoScale p); simpl; [|apply IH].
  destruct (capacityByDropletSlug m !! Size p) as [cap|]; [apply IH | done].
Qed.

Lemma refreshLoop_retained m pools : ∀ group,
  refreshLoop m pools group = refreshLoop m (retained pools) group.
Proof.
  induction pools as [|p pools IH]; intros group; [done|].
  destruct (AutoScale p) eqn:Hauto.
  - rewrite retained_cons_true by done. simpl. rewrite Hauto. simpl.
    destruct (capacityByDropletSlug m !! Size p); [apply IH | done].
  - rewrite retained_cons_false by done. simpl. rewrite Hauto. apply IH.
Qed.

End LoopLemmas.

(** X7.  [Refresh] returns [nil] exactly when [ensureCapacityMap] and
    [ListNodePools] return no error and every auto-scalable pool of the
    listing has its size slug in the capacity table; the sizes of the other
    pools are never looked up. *)
Theorem Refresh_succeeds_iff {World} (m : Manager World) (w : World) :
  returned m w = None
  ↔ (result (ensureCapacityMap m w)).1 = None ∧
    (listedBy m w).1.2 = None ∧
    ∀ p, p ∈ (listedBy m w).1.1 → AutoScale p = true →
         is_Some (capacityByDropletSlug (result (ensureCapacityMap m w)).2 !! Size p).
Proof.
  split.
  - intros (Hens & Hlist & group & Hloop & _)%Refresh_success.
    repeat split; try done. intros p Hp Hauto.
    destruct (capacityByDropletSlug _ !! Size p) as [cap|] eqn:Hcap; [by eexists|].
    destruct (refreshLoop_missing _ _ [] p Hp Hauto Hcap) as (q & _ & _ & _ & Hfail).
    congruence.
  - intros (Hens & Hlist & Hall).
    pose proof (Refresh_outcome m w) as H. simpl in H.
    rewrite Hens, Hlist in H.
    destruct (refreshLoop_covered _ _ [] Hall) as [group Hloop].
    rewrite Hloop in H. apply H.
Qed.

Lemma Refresh_succeeds_iff_witness :
  returned warmManager [(fixedPools, None)] = None
  ∧ ∀ p, p ∈ (listedBy warmManager [(fixedPools, None)]).1.1 → AutoScale p = true →
         is_Some (capacityByDropletSlug
                    (result (ensureCapacityMap warmManager [(fixedPools, None)])).2
                  !! Size p).
Proof.
  split; [by vm_compute|].
  apply (proj1 (Refresh_succeeds_iff warmManager [(fixedPools, None)])).
  by vm_compute.
Defined.

(** X8.  The capacity error names the first offender: when the listing
    succeeded and [q] is the first auto-scalable pool, in listing order,
    whose size slug is not in the table, [Refresh] returns
    [no capacity data found for droplet slug <q's slug>], whatever follows
    [q] in the listing. *)
Theorem Refresh_reports_first_missing {World} (m : Manager World) (w : World)
    (before after_q : list KubernetesNodePool) (q : KubernetesNodePool) :
  (result (ensureCapacityMap m w)).1 = None →
  (listedBy m w).1.2 = None →
  (listedBy m w).1.1 = before ++ q :: after_q →
  (∀ p, p ∈ before → AutoScale p = true →
        is_Some (capacityByDropletSlug (result (ensureCapacityMap m w)).2 !! Size p)) →
  AutoScale q = true →
  capacityByDropletSlug (result (ensureCapacityMap m w)).2 !! Size q = None →
  returned m w
  = Some (fmtErrorfQ "no capacity data found for droplet slug %q" (Size q)).
Proof.
  intros Hens Hlist Hsplit Hbefore Hauto Hcap.
  pose proof (Refresh_outcome m w) as H. simpl in H.
  rewrite Hens, Hlist, Hsplit, refreshLoop_app in H.
  destruct (refreshLoop_covered _ _ [] Hbefore) as [group Hloop].
  rewrite Hloop in H. simpl in H. rewrite Hauto, Hcap in H. apply H.
Qed.

Lemma Refresh_reports_first_missing_witness :
  (listedBy warmManager [(unknownSizePools ++ examplePools, None)]).1.1
  = [mkPool "1" "s-1vcpu-2gb" true 1 3 []] ++ unknownPool :: examplePools
  ∧ returned warmManager [(unknownSizePools ++ examplePools, None)]
    = Some (fmtErrorfQ "no capacity data found for droplet slug %q" "m-unknown").
Proof.
  split; [by vm_compute|].
  apply (Refresh_reports_first_missing warmManager
           [(unknownSizePools ++ examplePools, None)]
           [mkPool "1" "s-1vcpu-2gb" true 1 3 []] examplePools unknownPool);
    try by vm_compute.
  intros p Hp _. apply elem_of_cons in Hp as [-> | Hp]; [vm_compute; by eexists|].
  by apply elem_of_nil in Hp.
Defined.

(** X9.  An error of [ensureCapacityMap] ends the refresh at once: [Refresh]
    returns that error as it is, makes no outbound call of its own (so
    [ListNodePools] is not invoked) and leaves the manager as
    [ensureCapacityMap] left it. *)
Theorem Refresh_ensure_error {World} (m : Manager World) (w : World) (e : error) :
  (result (ensureCapacityMap m w)).1 = Some e →
  returned m w = Some e ∧
  calls (Refresh m w) = calls (ensureCapacityMap m w) ∧
  world (Refresh m w) = world (ensureCapacityMap m w) ∧
  after m w = (result (ensureCapacityMap m w)).2.
Proof.
  intros Hens. unfold returned, after.
  destruct (Refresh_cases m w) as (err1 & m1 & w1 & t1 & Heq & H).
  rewrite Heq in *. unfold result in Hens. simpl in Hens. subst err1.
  by rewrite H.
Qed.

Lemma Refresh_ensure_error_witness :
  (result (ensureCapacityMap sizelessManager [(examplePools, None)])).1 = Some timeout
  ∧ returned sizelessManager [(examplePools, None)] = Some timeout
  ∧ calls (Refresh sizelessManager [(examplePools, None)]) = [CallSizesList]
  ∧ world (Refresh sizelessManager [(examplePools, None)]) = [(examplePools, None)].
Proof.
  split; [by vm_compute|].
  destruct (Refresh_ensure_error sizelessManager [(examplePools, None)] timeout)
    as (Hret & Hcalls & Hworld & _); [by vm_compute|].
  split; [exact Hret|]. split; [by rewrite Hcalls | by rewrite Hworld].
Defined.

(** X10.  Once [ensureCapacityMap] has succeeded, [Refresh] makes exactly
    one outbound call, on every path: [ListNodePools] for the cluster ID the
    manager holds; the remote side is left as that call left it. *)
Theorem Refresh_lists_once {World} (m : Manager World) (w : World) :
  (result (ensureCapacityMap m w)).1 = None →
  calls (Refresh m w)
  = calls (ensureCapacityMap m w) ++ [CallListNodePools (clusterID (after m w))] ∧
  world (Refresh m w) = (listedBy m w).2.
Proof.
  intros Hens. unfold after, listedBy.
  destruct (Refresh_cases m w) as (err1 & m1 & w1 & t1 & Heq & H).
  rewrite Heq in *. unfold result, world, calls in *. simpl in *. subst err1.
  destruct H as (pools & err2 & w2 & -> & H). simpl in H.
  destruct err2 as [e|]; [by rewrite H|].
  destruct (refreshLoop m1 pools []); by rewrite H.
Qed.

Lemma Refresh_lists_once_witness :
  (result (ensureCapacityMap freshManager [(unknownSizePools, None)])).1 = None
  ∧ calls (Refresh freshManager [(unknownSizePools, None)])
    = [CallSizesList; CallListNodePools "123456"]
  ∧ world (Refresh freshManager [(unknownSizePools, None)]) = [].
Proof.
  split; [by vm_compute|].
  destruct (Refresh_lists_once freshManager [(unknownSizePools, None)])
    as (Hcalls & Hworld); [by vm_compute|].
  split; [by rewrite Hcalls | by rewrite Hworld].
Defined.

(** X11.  The body of [Refresh] writes [nodeGroups] and nothing else: on
    every path the capacity table, the client, the cluster ID and the size
    lister are the ones [ensureCapacityMap] left, so a refresh that fails
    later does not undo the population of the table. *)
Theorem Refresh_writes_cache_only {World} (m : Manager World) (w : World) :
  capacityByDropletSlug (after m w)
  = capacityByDropletSlug (result (ensureCapacityMap m w)).2 ∧
  client (after m w) = client (result (ensureCapacityMap m w)).2 ∧
  clusterID (after m w) = clusterID (result (ensureCapacityMap m w)).2 ∧
  mSizeLister (after m w) = mSizeLister (result (ensureCapacityMap m w)).2.
Proof.
  by destruct (Refresh_after m w) as [-> | [_ [group ->]]].
Qed.

(** X12.  Every entry a successful [Refresh] publishes holds the manager's
    own client, the one the listing was made with. *)
Theorem Refresh_entries_share_client {World} (m : Manager World) (w : World) :
  returned m w = None →
  Forall (λ g, ngClient g = client (after m w)) (nodeGroups (after m w)).
Proof.
  intros Hbuilt%Refresh_success_built.
  induction Hbuilt as [|p g ps gs Hb _ IH]; constructor; [|exact IH].
  by destruct Hb as (_ & _ & ? & _).
Qed.

Lemma Refresh_entries_share_client_witness :
  returned freshManager [(examplePools, None)] = None
  ∧ Forall (λ g, ngClient g = client (after freshManager [(examplePools, None)]))
           (nodeGroups (after freshManager [(examplePools, None)])).
Proof.
  split; [by vm_compute|].
  apply (Refresh_entries_share_client freshManager [(examplePools, None)]).
  by vm_compute.
Defined.

(** X13.  The outcome of a refresh depends on the listing only through its
    auto-scalable pools: two runs that start from the same manager, agree on
    what [ensureCapacityMap] leaves and list successfully the same
    auto-scalable pools, in the same order, return the same error or publish
    the same entries, however the other pools differ. *)
Theorem Refresh_depends_on_retained {World} (m : Manager World) (w1 w2 : World) :
  result (ensureCapacityMap m w1) = result (ensureCapacityMap m w2) →
  (listedBy m w1).1.2 = None →
  (listedBy m w2).1.2 = None →
  filter (λ p, AutoScale p = true) (listedBy m w1).1.1
  = filter (λ p, AutoScale p = true) (listedBy m w2).1.1 →
  returned m w1 = returned m w2 ∧ after m w1 = after m w2.
Proof.
  intros Hens Hl1 Hl2 Hsame.
  pose proof (Refresh_outcome m w1) as H1.
  pose proof (Refresh_outcome m w2) as H2. simpl in H1, H2.
  rewrite Hl1, refreshLoop_retained in H1.
  rewrite Hl2, refreshLoop_retained in H2.
  unfold retained in H1, H2. rewrite <- Hsame, <- Hens in H2.
  destruct ((result (ensureCapacityMap m w1)).1);
    [destruct H1 as [-> ->], H2 as [-> ->]; by rewrite Hens|].
  destruct (refreshLoop _ _ []); by destruct H1 as [-> ->], H2 as [-> ->].
Qed.

Lemma Refresh_depends_on_retained_witness :
  filter (λ p, AutoScale p = true) (listedBy freshManager [(examplePools, None)]).1.1
  = filter (λ p, AutoScale p = true)
      (listedBy freshManager [(fixedPools ++ examplePools ++ fixedPools, None)]).1.1
  ∧ nodeGroups (after freshManager [(examplePools, None)])
    = nodeGroups (after freshManager [(fixedPools ++ examplePools ++ fixedPools, None)]).
Proof.
  split; [by vm_compute|].
  destruct (Refresh_depends_on_retained freshManager [(examplePools, None)]
              [(fixedPools ++ examplePools ++ fixedPools, None)]) as [_ Hafter];
    [by vm_compute | by vm_compute | by vm_compute | by vm_compute |].
  by rewrite Hafter.
Defined.

(** X14.  The loop of [Refresh] treats a listing piece by piece: for a
    listing [pools1 ++ pools2] it yields the entries of [pools1] followed by
    those of [pools2], and fails with the error of the first piece that
    fails. *)
Theorem refreshLoop_concat {World} (m : Manager World)
    (pools1 pools2 : list KubernetesNodePool) :
  refreshLoop m (pools1 ++ pools2) []
  = match refreshLoop m pools1 [] with
    | inl e => inl e
    | inr group1 =>
        match refreshLoop m pools2 [] with
        | inl e => inl e
        | inr group2 => inr (group1 ++ group2)
        end
    end.
Proof.
  rewrite refreshLoop_app.
  destruct (refreshLoop m pools1 []) as [e|group1]; [done|].
  apply refreshLoop_from.
Qed.
